(** * rastPATCH: the overlapping tile grid of [raster_tile.py]

    A shallow embedding of [tile_raster_with_overlap] (python/raster_tile.py):
    the grid of read windows computed from the raster's size, the tile size
    and the overlap, the names of the tile files, and the outcome of a run.
    Python integers are unbounded, so every number is a [Z]. *)

From Stdlib Require Import ZArith List Bool Lia Ascii String Sorted DecimalString.
From Stdlib Require DecimalN.
Import ListNotations.

Open Scope Z_scope.

(** ** Errors *)

(** The exceptions the modelled code can meet: [range] refuses a zero step,
    and the raster library can fail while a tile is read or written. *)
Inductive exn : Type :=
| ValueError
| IOFailure.

Definition result (A : Type) : Type := (exn + A)%type.

Definition ret {A : Type} (a : A) : result A := inr a.
Definition raise {A : Type} (e : exn) : result A := inl e.

Definition bind {A B : Type} (m : result A) (k : A -> result B) : result B :=
  match m with
  | inl e => inl e
  | inr a => k a
  end.

Notation "x <- m ;; k" := (bind m (fun x => k))
  (at level 61, m at next level, right associativity).

(** ** Python's [range] *)

(** Number of elements of [range(start, stop, step)] for a non-zero step:
    the smallest count that steps from [start] up to (or down to) [stop]. *)
Definition range_length (start stop step : Z) : Z :=
  if 0 <? step then
    if start <? stop then (stop - start - 1) / step + 1 else 0
  else
    if stop <? start then (start - stop - 1) / (- step) + 1 else 0.

(** [range(start, stop, step)]: a zero step is a [ValueError]; otherwise
    the items are [start + i * step] for the indices below the length. *)
Definition py_range (start stop step : Z) : result (list Z) :=
  if step =? 0 then raise ValueError
  else ret (map (fun i => start + Z.of_nat i * step)
                (seq 0 (Z.to_nat (range_length start stop step)))).

(** The nominal origins along an axis of extent [n]: the items of
    [range(0, n, step)] for a non-zero step. *)
Definition origins (n step : Z) : list Z :=
  map (fun i => 0 + Z.of_nat i * step)
      (seq 0 (Z.to_nat (range_length 0 n step))).

(** ** The tile grid *)

(** The raster as the grid computation sees it: [src.height], [src.width]. *)
Record raster : Type := mkRaster { height : Z; width : Z }.

(** An entry of [tile_grid]: the tuple [(y_off, x_off, width, height)]. *)
Definition tile : Type := (Z * Z * Z * Z)%type.

Definition tile_y_off (t : tile) : Z := let '(y, _, _, _) := t in y.
Definition tile_x_off (t : tile) : Z := let '(_, x, _, _) := t in x.
Definition tile_width (t : tile) : Z := let '(_, _, w, _) := t in w.
Definition tile_height (t : tile) : Z := let '(_, _, _, h) := t in h.

(** Body of the inner loop (lines 81-89) for the nominal origin [(y, x)]. *)
Definition tile_at (src : raster) (tile_size overlap : Z) (y x : Z) : tile :=
  let x_off := Z.max 0 (if x >? 0 then x - overlap else 0) in
  let y_off := Z.max 0 (if y >? 0 then y - overlap else 0) in
  let w := Z.min (tile_size + (if x >? 0 then overlap else 0))
                 (width src - x_off) in
  let h := Z.min (tile_size + (if y >? 0 then overlap else 0))
                 (height src - y_off) in
  (y_off, x_off, w, h).

(** The inner [for x in range(...)] loop, appending to [tile_grid]. *)
Fixpoint grid_cols (src : raster) (tile_size overlap : Z) (y : Z)
         (xs : list Z) (tile_grid : list tile) : list tile :=
  match xs with
  | [] => tile_grid
  | x :: xs' =>
      grid_cols src tile_size overlap y xs'
                (tile_grid ++ [tile_at src tile_size overlap y x])
  end.

(** The outer [for y in range(...)] loop; the inner [range] is evaluated
    anew for every row. *)
Fixpoint grid_rows (src : raster) (tile_size overlap : Z)
         (ys : list Z) (tile_grid : list tile) : result (list tile) :=
  match ys with
  | [] => ret tile_grid
  | y :: ys' =>
      xs <- py_range 0 (width src) (tile_size - overlap) ;;
      grid_rows src tile_size overlap ys'
                (grid_cols src tile_size overlap y xs tile_grid)
  end.

(** Lines 77-89: [tile_grid = []] followed by the two nested loops. *)
Definition tile_grid (src : raster) (tile_size overlap : Z)
  : result (list tile) :=
  ys <- py_range 0 (height src) (tile_size - overlap) ;;
  grid_rows src tile_size overlap ys [].

(** ** Geometry of the windows *)

(** The configurations the grid computation is meant for. *)
Definition valid_config (src : raster) (tile_size overlap : Z) : Prop :=
  0 < width src /\ 0 < height src /\ 0 < tile_size /\
  0 <= overlap < tile_size.

(** Pixel [(r, c)] (row, column) lies in the window of the tile. *)
Definition covers (t : tile) (r c : Z) : Prop :=
  tile_y_off t <= r < tile_y_off t + tile_height t /\
  tile_x_off t <= c < tile_x_off t + tile_width t.

(** Pixel [(r, c)] lies in the raster. *)
Definition in_raster (src : raster) (r c : Z) : Prop :=
  0 <= r < height src /\ 0 <= c < width src.

(** Two windows share no pixel. *)
Definition disjoint (t1 t2 : tile) : Prop :=
  forall r c, ~ (covers t1 r c /\ covers t2 r c).

(** Every window of the sequence is disjoint from every later one. *)
Definition pairwise_disjoint (g : list tile) : Prop :=
  ForallOrdPairs disjoint g.

(** Row-major order of the offsets: an earlier row, or the same row and an
    earlier column. *)
Definition tile_lt (t1 t2 : tile) : Prop :=
  tile_y_off t1 < tile_y_off t2 \/
  (tile_y_off t1 = tile_y_off t2 /\ tile_x_off t1 < tile_x_off t2).

(** Number of integers shared by [a, a + n) and [b, b + m). *)
Definition span_overlap (a n b m : Z) : Z :=
  Z.max 0 (Z.min (a + n) (b + m) - Z.max a b).

(** Columns two windows share. *)
Definition x_overlap (t1 t2 : tile) : Z :=
  span_overlap (tile_x_off t1) (tile_width t1) (tile_x_off t2) (tile_width t2).

(** A window that is not degenerate and stays inside the raster. *)
Definition tile_ok (src : raster) (t : tile) : Prop :=
  0 < tile_width t /\ 0 < tile_height t /\
  0 <= tile_y_off t /\ 0 <= tile_x_off t /\
  tile_y_off t + tile_height t <= height src /\
  tile_x_off t + tile_width t <= width src.

(** The ceiling of [a / b], written as Python's [-(-a // b)]. *)
Definition ceil_div (a b : Z) : Z := - ((- a) / b).

(** The offset the nominal origin [x] is given when the origin is only
    moved back, [x - overlap if x > 0 else 0], without the clamp at zero. *)
Definition back_extended (overlap x : Z) : Z :=
  if x >? 0 then x - overlap else 0.

(** The same offset with the move back stopped at the raster's edge. *)
Definition back_extended_clamped (overlap x : Z) : Z :=
  if x >? 0 then Z.max 0 (x - overlap) else 0.

Definition tile_offsets (t : tile) : Z * Z := (tile_y_off t, tile_x_off t).

(** ** Tile files *)

Open Scope string_scope.

Fixpoint zeros (n : nat) : string :=
  match n with
  | O => ""
  | S n' => String "0" (zeros n')
  end.

(** Python's [format(n, "04d")]: the sign of a negative number, then the
    decimal digits padded with zeros on the left to four characters in
    all; longer numbers are not cut. *)
Definition format_04d (n : Z) : string :=
  let sign := if (n <? 0)%Z then "-" else "" in
  let digits := NilZero.string_of_uint (N.to_uint (Z.abs_N n)) in
  sign ++ zeros (4 - String.length sign - String.length digits) ++ digits.



(** The path ends with a separator, as the root ["/"] does. *)
Fixpoint ends_with_slash (s : string) : bool :=
  match s with
  | "" => false
  | String c "" => Ascii.eqb c "/"
  | String _ s' => ends_with_slash s'
  end.

(** [Path / name] for a relative [name], as the string of the resulting
    POSIX path: one separator between the two parts, none added after a
    directory that already ends with one ([Path("/") / "tiles"] is
    ["/tiles"]). *)
Definition path_join (dir name : string) : string :=
  if ends_with_slash dir then dir ++ name else dir ++ "/" ++ name.

(** Line 19: [tiles_dir = output_dir / "tiles"]. *)
Definition tiles_dir_of (output_dir : string) : string :=
  path_join output_dir "tiles".

(** Line 110: the file name [f"tile_{y:04d}_{x:04d}.tif"] of a grid entry. *)
Definition tile_name (t : tile) : string :=
  "tile_" ++ format_04d (tile_y_off t) ++ "_" ++ format_04d (tile_x_off t)
          ++ ".tif".

Definition tile_path (tiles_dir : string) (t : tile) : string :=
  path_join tiles_dir (tile_name t).



Close Scope string_scope.

(** ** A run *)

(** What a run works on: the opened raster, the absolute output directory,
    and whether reading and saving a given tile goes through. *)
Record env : Type := mkEnv {
  src : raster;
  output_dir : string;
  tile_io_ok : tile -> bool
}.

(** How a run ends: the success report of lines 124-126 (directory, number
    of tiles, tile size and overlap), or [sys.exit(1)] after an exception. *)
Inductive outcome : Type :=
| Success (tiles_dir : string) (total : nat) (tile_size overlap : Z)
| ExitFailure (status : Z) (e : exn).

(** Lines 93-122: one read and one write per grid entry, in order; the
    state threaded through is the list of tile files written so far. *)
Fixpoint process_tiles (io_ok : tile -> bool) (tiles_dir : string)
         (grid : list tile) (written : list string)
  : result unit * list string :=
  match grid with
  | [] => (ret tt, written)
  | t :: rest =>
      if io_ok t then
        process_tiles io_ok tiles_dir rest
                      (written ++ [tile_path tiles_dir t])
      else (raise IOFailure, written)
  end.

(** [tile_raster_with_overlap] from the opened raster on: the grid, the
    tile loop, and the report or the exit of the handler (lines 128-130).
    The result pairs the outcome with the tile files written. *)
Definition tile_raster_with_overlap (e : env) (tile_size overlap : Z)
  : outcome * list string :=
  let tiles_dir := tiles_dir_of (output_dir e) in
  match tile_grid (src e) tile_size overlap with
  | inl err => (ExitFailure 1 err, [])
  | inr grid =>
      match process_tiles (tile_io_ok e) tiles_dir grid [] with
      | (inl err, written) => (ExitFailure 1 err, written)
      | (inr _, written) =>
          (Success tiles_dir (List.length grid) tile_size overlap, written)
      end
  end.

Definition failed (o : outcome) : bool :=
  match o with
  | Success _ _ _ _ => false
  | ExitFailure _ _ => true
  end.

(** ** Rows of the grid *)

(** Rows two windows share. *)
Definition y_overlap (t1 t2 : tile) : Z :=
  span_overlap (tile_y_off t1) (tile_height t1)
               (tile_y_off t2) (tile_height t2).

(** ** Profiles and saved tiles *)

(** The values a raster profile holds: numbers, strings, flags, and the
    objects of the raster library (a coordinate system, an affine
    transform, a nodata value), which the code only passes along. *)
Inductive pyval (O : Type) : Type :=
| VInt (n : Z)
| VStr (s : string)
| VBool (b : bool)
| VObj (o : O).

Arguments VInt {O} n.
Arguments VStr {O} s.
Arguments VBool {O} b.
Arguments VObj {O} o.

(** A [dict] with string keys, in insertion order. *)
Definition dict (O : Type) : Type := list (string * pyval O).

(** [d[k] = v]: an existing key keeps its place and takes the new value, a
    new key goes to the end. *)
Fixpoint dict_set {O} (k : string) (v : pyval O) (d : dict O) : dict O :=
  match d with
  | [] => [(k, v)]
  | (k', v') :: d' =>
      if String.eqb k k' then (k', v) :: d'
      else (k', v') :: dict_set k v d'
  end.

(** [d.update(items)], item by item. *)
Definition dict_update {O} (d : dict O) (items : list (string * pyval O))
  : dict O :=
  fold_left (fun acc kv => dict_set (fst kv) (snd kv) acc) items d.

(** [d.get(k)]. *)
Fixpoint dict_get {O} (k : string) (d : dict O) : option (pyval O) :=
  match d with
  | [] => None
  | (k', v) :: d' => if String.eqb k k' then Some v else dict_get k d'
  end.

(** A raster file as [save_tile_as_geotiff] writes it: where, with which
    profile, and the block written to band 1. *)
Record geotiff (O D : Type) : Type := mkGeotiff {
  gt_path : string;
  gt_profile : dict O;
  gt_band1 : D
}.

Arguments mkGeotiff {O D} _ _ _.
Arguments gt_path {O D} _.
Arguments gt_profile {O D} _.
Arguments gt_band1 {O D} _.

(** Lines 27-38: the profile is a copy of [template_meta] updated with the
    tile's height, width and transform and the GTiff driver; the file is
    opened for writing with it and [data] is written to band 1. The copy
    leaves [template_meta] itself as it was. *)
Definition save_tile_as_geotiff {O D} (data : D) (output_path : string)
           (template_meta : dict O) (x y width height : Z) (transform : O)
  : geotiff O D :=
  let profile :=
    dict_update template_meta
      [("height"%string, VInt height);
       ("width"%string, VInt width);
       ("transform"%string, VObj transform);
       ("driver"%string, VStr "GTiff")] in
  mkGeotiff output_path profile data.

(** What the opened source raster offers besides its size: [src.profile],
    [src.transform], [src.read(1, window=win)], and the raster library's
    [windows.transform(win, transform)]. *)
Record source (O D : Type) : Type := mkSource {
  src_profile : dict O;
  src_transform : O;
  src_read : tile -> D;
  window_transform : tile -> O -> O
}.

Arguments mkSource {O D} _ _ _ _.
Arguments src_profile {O D} _.
Arguments src_transform {O D} _.
Arguments src_read {O D} _ _.
Arguments window_transform {O D} _ _ _.

(** Lines 68-74: the output profile, a copy of the source's with the
    compression and the internal tiling set. *)
Definition output_profile {O D} (s : source O D) : dict O :=
  dict_update (src_profile s)
    [("compress"%string, VStr "lzw");
     ("tiled"%string, VBool true);
     ("blockxsize"%string, VInt 256);
     ("blockysize"%string, VInt 256)].

(** Lines 93-122 with the files themselves: for each grid entry the window
    is read, its transform is derived and the tile is saved; the state
    threaded through is the list of files saved so far. *)
Fixpoint save_tiles {O D} (io_ok : tile -> bool) (s : source O D)
         (tiles_dir : string) (profile : dict O) (grid : list tile)
         (saved : list (geotiff O D))
  : result unit * list (geotiff O D) :=
  match grid with
  | [] => (ret tt, saved)
  | win :: rest =>
      if io_ok win then
        let '(y, x, width, height) := win in
        let tile := src_read s win in
        let tile_transform := window_transform s win (src_transform s) in
        save_tiles io_ok s tiles_dir profile rest
          (saved ++ [save_tile_as_geotiff tile (tile_path tiles_dir win)
                       profile x y width height tile_transform])
      else (raise IOFailure, saved)
  end.

(** [tile_raster_with_overlap] with the files it saves. *)
Definition tile_raster_files {O D} (e : env) (s : source O D)
           (tile_size overlap : Z) : outcome * list (geotiff O D) :=
  let tiles_dir := tiles_dir_of (output_dir e) in
  let profile := output_profile s in
  match tile_grid (src e) tile_size overlap with
  | inl err => (ExitFailure 1 err, [])
  | inr grid =>
      match save_tiles (tile_io_ok e) s tiles_dir profile grid [] with
      | (inl err, saved) => (ExitFailure 1 err, saved)
      | (inr _, saved) =>
          (Success tiles_dir (List.length grid) tile_size overlap, saved)
      end
  end.



(** ** The whole run *)

(** What lines 60-66 can meet before the raster is open: the input file is
    missing, the tiles directory or the scratch directory cannot be made,
    the raster cannot be opened. *)
Inductive setup_exn : Type :=
| FileNotFoundError
| DirectoryError
| OpenError.

(** What a run finds outside: whether the input path exists (line 15),
    whether [mkdir] (line 20) and [mkdtemp] (line 64) go through, what
    [rasterio.open] gives (line 66, [None] when it raises), the absolute
    output directory, and whether reading and saving a tile goes through. *)
Record world : Type := mkWorld {
  input_exists : bool;
  mkdir_ok : bool;
  mkdtemp_ok : bool;
  opened : option raster;
  world_output_dir : string;
  world_tile_io_ok : tile -> bool
}.

(** Lines 11-25: the input must exist, then the tiles directory is made;
    the result is the output directory and the tiles directory. An
    exception is reported and raised again. *)
Definition validate_and_prepare_paths (w : world)
  : setup_exn + (string * string) :=
  if negb (input_exists w) then inl FileNotFoundError
  else if negb (mkdir_ok w) then inl DirectoryError
  else inr (world_output_dir w, tiles_dir_of (world_output_dir w)).

(** How the whole function ends: as the part from the opened raster on
    ends, or by [sys.exit(1)] for an exception met before that; the
    handler of lines 128-130 is the same for both. *)
Inductive run_end : Type :=
| Ended (o : outcome)
| SetupFailed (status : Z) (e : setup_exn).

(** Lines 58-130: the paths, the scratch directory, the opening of the
    raster, then the grid and the tiles. *)
Definition tile_raster_run (w : world) (tile_size overlap : Z)
  : run_end * list string :=
  match validate_and_prepare_paths w with
  | inl err => (SetupFailed 1 err, [])
  | inr (output_dir, _) =>
      if negb (mkdtemp_ok w) then (SetupFailed 1 DirectoryError, [])
      else
        match opened w with
        | None => (SetupFailed 1 OpenError, [])
        | Some r =>
            let run :=
              tile_raster_with_overlap
                (mkEnv r output_dir (world_tile_io_ok w))
                tile_size overlap in
            (Ended (fst run), snd run)
        end
  end.

Definition run_failed (r : run_end) : bool :=
  match r with
  | Ended o => failed o
  | SetupFailed _ _ => true
  end.

(** The keys that the code sets on every tile's profile. *)
Definition forced_keys : list string :=
  ["height"; "width"; "transform"; "driver";
   "compress"; "tiled"; "blockxsize"; "blockysize"]%string.

(** * Properties *)

(** ** The loops as a row-major product *)

Lemma grid_cols_app src ts ov y xs acc :
  grid_cols src ts ov y xs acc = acc ++ map (tile_at src ts ov y) xs.
Proof.
  revert acc; induction xs as [|x xs IH]; intro acc; simpl.
  - now rewrite app_nil_r.
  - rewrite IH, <- app_assoc. reflexivity.
Qed.

Lemma grid_rows_app src ts ov xs ys acc :
  py_range 0 (width src) (ts - ov) = inr xs ->
  grid_rows src ts ov ys acc
  = inr (acc ++ flat_map (fun y => map (tile_at src ts ov y) xs) ys).
Proof.
  intro Hxs. revert acc; induction ys as [|y ys IH]; intro acc; simpl.
  - now rewrite app_nil_r.
  - rewrite Hxs; simpl. rewrite IH, grid_cols_app, <- app_assoc. reflexivity.
Qed.

Lemma py_range_origins n step :
  step <> 0 -> py_range 0 n step = inr (origins n step).
Proof.
  intro Hs. unfold py_range.
  destruct (Z.eqb_spec step 0) as [E|_]; [contradiction|reflexivity].
Qed.

Lemma py_range_zero_step start stop :
  py_range start stop 0 = inl ValueError.
Proof. reflexivity. Qed.

(** With a non-zero step the grid is the image of the row-major product of
    the origins of the two axes. *)
Lemma tile_grid_product src ts ov :
  ts - ov <> 0 ->
  tile_grid src ts ov
  = inr (map (fun p => tile_at src ts ov (fst p) (snd p))
             (list_prod (origins (height src) (ts - ov))
                        (origins (width src) (ts - ov)))).
Proof.
  intro Hs. unfold tile_grid.
  rewrite (py_range_origins _ _ Hs); simpl.
  rewrite (grid_rows_app _ _ _ _ _ _ (py_range_origins _ _ Hs)); simpl.
  f_equal.
  induction (origins (height src) (ts - ov)) as [|y ys IH]; simpl; auto.
  rewrite map_app, map_map, IH. reflexivity.
Qed.

Lemma tile_grid_zero_step src ts :
  tile_grid src ts ts = inl ValueError.
Proof.
  unfold tile_grid. now rewrite Z.sub_diag, py_range_zero_step.
Qed.

(** ** The origins of an axis *)

Lemma ceil_div_bounds a b :
  0 < b -> b * (ceil_div a b - 1) < a <= b * ceil_div a b.
Proof.
  intro Hb. unfold ceil_div.
  pose proof (Z.div_mod (- a) b ltac:(lia)) as E.
  pose proof (Z.mod_pos_bound (- a) b Hb) as M.
  nia.
Qed.

Lemma range_length_ceil n step :
  0 < step -> 0 < n -> range_length 0 n step = ceil_div n step.
Proof.
  intros Hs Hn. unfold range_length.
  destruct (Z.ltb_spec 0 step); [|lia].
  destruct (Z.ltb_spec 0 n); [|lia].
  pose proof (ceil_div_bounds n step Hs) as B.
  pose proof (Z.div_mod (n - 0 - 1) step ltac:(lia)) as E.
  pose proof (Z.mod_pos_bound (n - 0 - 1) step Hs) as M.
  nia.
Qed.

Lemma range_length_neg_step n step :
  step < 0 -> 0 < n -> range_length 0 n step = 0.
Proof.
  intros Hs Hn. unfold range_length.
  destruct (Z.ltb_spec 0 step); [lia|].
  destruct (Z.ltb_spec n 0); [lia|reflexivity].
Qed.

(** An origin is a multiple [k * step] of the step that lies below [n]. *)
Lemma in_origins n step y :
  0 < step -> 0 < n ->
  In y (origins n step) <-> exists k, 0 <= k /\ y = k * step /\ y < n.
Proof.
  intros Hs Hn. unfold origins. rewrite in_map_iff.
  rewrite (range_length_ceil _ _ Hs Hn).
  pose proof (ceil_div_bounds n step Hs) as B.
  split.
  - intros (i & <- & Hi). apply in_seq in Hi.
    exists (Z.of_nat i). split; [lia|]. split; [lia|]. nia.
  - intros (k & Hk & -> & Hlt).
    exists (Z.to_nat k). split; [lia|]. apply in_seq. nia.
Qed.

Lemma length_origins n step :
  0 < step -> 0 < n ->
  Z.of_nat (List.length (origins n step)) = ceil_div n step.
Proof.
  intros Hs Hn. unfold origins.
  rewrite length_map, length_seq, (range_length_ceil _ _ Hs Hn).
  pose proof (ceil_div_bounds n step Hs). nia.
Qed.

(** Membership in the grid of a valid configuration. *)
Lemma in_tile_grid src ts ov :
  valid_config src ts ov ->
  exists g, tile_grid src ts ov = inr g /\
    forall t, In t g <->
      exists y x, In y (origins (height src) (ts - ov)) /\
                  In x (origins (width src) (ts - ov)) /\
                  t = tile_at src ts ov y x.
Proof.
  intros (HW & HH & Hts & Hov).
  eexists; split; [apply tile_grid_product; lia|].
  intro t. rewrite in_map_iff. split.
  - intros ([y x] & <- & Hin). apply in_prod_iff in Hin.
    exists y, x; simpl; tauto.
  - intros (y & x & Hy & Hx & ->). exists (y, x); split; [reflexivity|].
    now apply in_prod_iff.
Qed.

(** ** Every window is inside the raster *)

Lemma tile_at_ok src ts ov y x :
  valid_config src ts ov ->
  0 <= y < height src -> 0 <= x < width src ->
  tile_ok src (tile_at src ts ov y x).
Proof.
  intros (HW & HH & Hts & Hov) Hy Hx.
  unfold tile_ok, tile_at; simpl.
  destruct (Z.gtb_spec x 0), (Z.gtb_spec y 0); lia.
Qed.

Lemma origins_range n step y :
  0 < step -> 0 < n -> In y (origins n step) -> 0 <= y < n.
Proof.
  intros Hs Hn Hy. apply (in_origins _ _ _ Hs Hn) in Hy.
  destruct Hy as (k & Hk & -> & Hlt). nia.
Qed.

(** C7: for every valid configuration the grid is produced and each of its
    windows has a positive width and height, non-negative offsets, and ends
    within the raster's height and width. *)
Theorem emitted_windows_valid src ts ov :
  valid_config src ts ov ->
  exists g, tile_grid src ts ov = inr g /\ Forall (tile_ok src) g.
Proof.
  intro V. destruct (in_tile_grid _ _ _ V) as (g & Hg & Hin).
  exists g; split; [exact Hg|]. apply Forall_forall. intros t Ht.
  apply Hin in Ht. destruct Ht as (y & x & Hy & Hx & ->).
  pose proof V as (HW & HH & Hts & Hov).
  apply tile_at_ok;
    [exact V
    |apply (origins_range _ (ts - ov)); [lia|lia|exact Hy]
    |apply (origins_range _ (ts - ov)); [lia|lia|exact Hx]].
Qed.

Lemma emitted_windows_valid_witness :
  valid_config (mkRaster 1 2500) 1000 100 /\
  exists g, tile_grid (mkRaster 1 2500) 1000 100 = inr g /\
            Forall (tile_ok (mkRaster 1 2500)) g.
Proof.
  assert (V : valid_config (mkRaster 1 2500) 1000 100)
    by (unfold valid_config; simpl; lia).
  split; [exact V | exact (emitted_windows_valid _ _ _ V)].
Defined.

(** ** Coverage *)

(** The origin at or before coordinate [r] along an axis. *)
Lemma origin_before n step r :
  0 < step -> 0 <= r < n ->
  In (r / step * step) (origins n step) /\
  r / step * step <= r < r / step * step + step.
Proof.
  intros Hs Hr.
  pose proof (Z.div_mod r step ltac:(lia)) as E.
  pose proof (Z.mod_pos_bound r step Hs) as M.
  assert (0 <= r / step) by (apply Z.div_pos; lia).
  split; [|nia].
  apply in_origins; [lia|lia|]. exists (r / step). repeat split; nia.
Qed.

Lemma grid_covers src ts ov :
  valid_config src ts ov ->
  exists g, tile_grid src ts ov = inr g /\
    forall r c, in_raster src r c <-> exists t, In t g /\ covers t r c.
Proof.
  intro V. destruct (in_tile_grid _ _ _ V) as (g & Hg & Hin).
  exists g; split; [exact Hg|]. intros r c.
  pose proof V as (HW & HH & Hts & Hov). split.
  - intros (Hr & Hc).
    destruct (origin_before (height src) (ts - ov) r ltac:(lia) Hr)
      as (Iy & By).
    destruct (origin_before (width src) (ts - ov) c ltac:(lia) Hc)
      as (Ix & Bx).
    set (y := r / (ts - ov) * (ts - ov)) in *.
    set (x := c / (ts - ov) * (ts - ov)) in *.
    exists (tile_at src ts ov y x).
    split; [apply Hin; eauto|].
    apply origins_range in Iy; [|lia|lia].
    apply origins_range in Ix; [|lia|lia].
    unfold covers, tile_at; simpl.
    destruct (Z.gtb_spec y 0), (Z.gtb_spec x 0); lia.
  - intros (t & Ht & Hc). apply Hin in Ht.
    destruct Ht as (y & x & Hy & Hx & ->).
    assert (K : tile_ok src (tile_at src ts ov y x))
      by (apply tile_at_ok;
            [exact V
            |apply (origins_range _ (ts - ov)); [lia|lia|exact Hy]
            |apply (origins_range _ (ts - ov)); [lia|lia|exact Hx]]).
    unfold tile_ok in K. unfold covers in Hc. unfold in_raster. lia.
Qed.

(** C6: for every valid configuration the grid is produced and a pixel lies
    in some window of the grid exactly when it lies in the raster: the
    windows together cover the whole extent and nothing else. *)
Theorem windows_cover_raster src ts ov :
  valid_config src ts ov ->
  exists g, tile_grid src ts ov = inr g /\
    forall r c, in_raster src r c <-> exists t, In t g /\ covers t r c.
Proof. exact (grid_covers src ts ov). Qed.

Lemma windows_cover_raster_witness :
  valid_config (mkRaster 7 5) 3 1 /\
  exists g, tile_grid (mkRaster 7 5) 3 1 = inr g /\
    forall r c, in_raster (mkRaster 7 5) r c <->
                exists t, In t g /\ covers t r c.
Proof.
  assert (V : valid_config (mkRaster 7 5) 3 1)
    by (unfold valid_config; simpl; lia).
  split; [exact V | exact (windows_cover_raster _ _ _ V)].
Defined.

(** ** Number of windows *)

(** C5: for every valid configuration the grid has
    [ceil(height / stride) * ceil(width / stride)] windows, where
    [stride = tile_size - overlap]. *)
Theorem tile_count src ts ov :
  valid_config src ts ov ->
  exists g, tile_grid src ts ov = inr g /\
    Z.of_nat (List.length g)
    = ceil_div (height src) (ts - ov) * ceil_div (width src) (ts - ov).
Proof.
  intros (HW & HH & Hts & Hov).
  eexists; split; [apply tile_grid_product; lia|].
  rewrite length_map, length_prod, Nat2Z.inj_mul.
  rewrite !length_origins by lia. reflexivity.
Qed.

Lemma tile_count_witness :
  valid_config (mkRaster 4000 4000) 2000 20 /\
  exists g, tile_grid (mkRaster 4000 4000) 2000 20 = inr g /\
    Z.of_nat (List.length g)
    = ceil_div 4000 (2000 - 20) * ceil_div 4000 (2000 - 20).
Proof.
  assert (V : valid_config (mkRaster 4000 4000) 2000 20)
    by (unfold valid_config; simpl; lia).
  split; [exact V | exact (tile_count _ _ _ V)].
Defined.

(** ** Worked grids *)

(** C8: a 2500 x 1 raster with tile size 1000 and overlap 100 gives three
    windows, in this order: (0, 0, 1000, 1), (0, 800, 1100, 1) and
    (0, 1700, 800, 1), each written (row offset, column offset, width,
    height). *)
Theorem grid_2500_by_1 :
  tile_grid (mkRaster 1 2500) 1000 100
  = inr [(0, 0, 1000, 1); (0, 800, 1100, 1); (0, 1700, 800, 1)].
Proof. reflexivity. Qed.

(** C3, as the code has it: a 4000 x 4000 raster with tile size 2000 and
    overlap 20 has the origins 0, 1980 and 3960 on each axis, so the grid
    is 3 x 3: nine windows at the offsets 0, 1960 and 3940. *)
Theorem grid_4000_by_4000 :
  tile_grid (mkRaster 4000 4000) 2000 20
  = inr [(0, 0, 2000, 2000); (0, 1960, 2020, 2000); (0, 3940, 60, 2000);
         (1960, 0, 2000, 2020); (1960, 1960, 2020, 2020);
         (1960, 3940, 60, 2020);
         (3940, 0, 2000, 60); (3940, 1960, 2020, 60); (3940, 3940, 60, 60)]
  /\ origins 4000 (2000 - 20) = [0; 1980; 3960].
Proof. split; reflexivity. Qed.

(** C3, as stated, fails: the grid of that configuration does not have
    four windows. *)
Lemma grid_4000_by_4000_not_four :
  exists g, tile_grid (mkRaster 4000 4000) 2000 20 = inr g /\
            List.length g <> 4%nat.
Proof.
  eexists; split; [reflexivity|]. simpl. discriminate.
Qed.

(** C1 at the defaults: on a 2500 x 1 raster with tile size 1000 and
    overlap 100 the first two windows of the row, whose nominal origins 0
    and 900 are consecutive, share 200 columns, twice the overlap. *)
Theorem adjacent_windows_share_twice_overlap :
  exists t0 t1 rest,
    tile_grid (mkRaster 1 2500) 1000 100 = inr (t0 :: t1 :: rest) /\
    t0 = tile_at (mkRaster 1 2500) 1000 100 0 0 /\
    t1 = tile_at (mkRaster 1 2500) 1000 100 0 900 /\
    x_overlap t0 t1 = 200 /\ 100 < x_overlap t0 t1.
Proof.
  do 3 eexists. split; [reflexivity|].
  repeat split; reflexivity.
Qed.

(** Away from the raster's edges the doubling is systematic: two windows at
    consecutive origins of a row share [2 * overlap] columns. *)
Lemma consecutive_x_overlap src ts ov y k :
  valid_config src ts ov -> 2 * ov <= ts -> 0 <= k ->
  (k + 1) * (ts - ov) + ts <= width src ->
  x_overlap (tile_at src ts ov y (k * (ts - ov)))
            (tile_at src ts ov y ((k + 1) * (ts - ov))) = 2 * ov.
Proof.
  intros (HW & HH & Hts & Hov) H2 Hk Hfit.
  replace ((k + 1) * (ts - ov)) with (k * (ts - ov) + (ts - ov)) in * by ring.
  assert (Ha : k * (ts - ov) = 0 \/ ts - ov <= k * (ts - ov))
    by (destruct (Z.eq_dec k 0) as [->|]; [left; ring | right; nia]).
  set (a := k * (ts - ov)) in *.
  unfold x_overlap, span_overlap, tile_at, tile_x_off, tile_width.
  cbv beta iota zeta.
  destruct (Z.gtb_spec a 0), (Z.gtb_spec (a + (ts - ov)) 0); lia.
Qed.

(** ** A negative stride *)

Lemma tile_grid_negative_stride src ts ov :
  ts < ov -> 0 < height src -> tile_grid src ts ov = inr [].
Proof.
  intros Hlt HH. unfold tile_grid.
  rewrite py_range_origins by lia. simpl.
  unfold origins. now rewrite range_length_neg_step by lia.
Qed.

(** C10: when the overlap exceeds the tile size and the raster has
    positive dimensions, the grid is empty, no tile file is written, and
    the run ends with the success report and a total of 0 tiles, whatever
    the tile reads and writes would do. *)
Theorem negative_stride_succeeds_empty e ts ov :
  ts < ov -> 0 < width (src e) -> 0 < height (src e) ->
  tile_grid (src e) ts ov = inr [] /\
  tile_raster_with_overlap e ts ov
  = (Success (tiles_dir_of (output_dir e)) 0 ts ov, []).
Proof.
  intros Hlt HW HH.
  pose proof (tile_grid_negative_stride (src e) ts ov Hlt HH) as G.
  split; [exact G|].
  unfold tile_raster_with_overlap. rewrite G. reflexivity.
Qed.

Lemma negative_stride_succeeds_empty_witness :
  let e := mkEnv (mkRaster 4000 4000) "/out" (fun _ => false) in
  tile_grid (src e) 100 150 = inr [] /\
  tile_raster_with_overlap e 100 150
  = (Success (tiles_dir_of (output_dir e)) 0 100 150, []).
Proof.
  intro e.
  apply (negative_stride_succeeds_empty e 100 150); unfold e; simpl; lia.
Defined.

(** ** Ordered sequences *)

Lemma StronglySorted_app {A} (R : A -> A -> Prop) l1 l2 :
  StronglySorted R l1 -> StronglySorted R l2 ->
  (forall a b, In a l1 -> In b l2 -> R a b) ->
  StronglySorted R (l1 ++ l2).
Proof.
  induction l1 as [|a l1 IH]; simpl; intros S1 S2 H; [exact S2|].
  apply StronglySorted_inv in S1. destruct S1 as [S1 F1].
  constructor.
  - apply IH; auto.
  - apply Forall_app; split; [exact F1|].
    apply Forall_forall; intros b Hb. apply H; auto.
Qed.

(** A map carries an order over when it does so on the list's members. *)
Lemma StronglySorted_map_in {A B} (R : A -> A -> Prop) (Q : B -> B -> Prop)
      (f : A -> B) l :
  (forall a b, In a l -> In b l -> R a b -> Q (f a) (f b)) ->
  StronglySorted R l -> StronglySorted Q (map f l).
Proof.
  induction l as [|a l IH]; simpl; intros H S; [constructor|].
  apply StronglySorted_inv in S. destruct S as [S F].
  constructor.
  - apply IH; auto.
  - apply Forall_map, Forall_forall. intros b Hb.
    apply H; auto. rewrite Forall_forall in F; auto.
Qed.

Lemma StronglySorted_pairs {A} (R : A -> A -> Prop) l :
  StronglySorted R l -> ForallOrdPairs R l.
Proof.
  induction 1; constructor; auto.
Qed.

(** The row-major product of two ordered lists is ordered by the first
    component, then by the second. *)
Lemma StronglySorted_prod {A B} (Ra : A -> A -> Prop) (Rb : B -> B -> Prop)
      la lb :
  StronglySorted Ra la -> StronglySorted Rb lb ->
  StronglySorted
    (fun p q => Ra (fst p) (fst q) \/ (fst p = fst q /\ Rb (snd p) (snd q)))
    (list_prod la lb).
Proof.
  intros Sa Sb. induction Sa as [|a la Sa IH Fa]; simpl; [constructor|].
  apply StronglySorted_app; [|exact IH|].
  - apply StronglySorted_map_in with (R := Rb); [|exact Sb].
    intros; right; auto.
  - intros p q Hp Hq. apply in_map_iff in Hp. destruct Hp as (b & <- & _).
    destruct q as [a' b']. apply in_prod_iff in Hq. left; simpl.
    rewrite Forall_forall in Fa. apply Fa, Hq.
Qed.

Lemma StronglySorted_seq a n : StronglySorted lt (seq a n).
Proof.
  revert a; induction n as [|n IH]; intro a; simpl; constructor; auto.
  apply Forall_forall; intros b Hb. apply in_seq in Hb. lia.
Qed.

Lemma origins_sorted n step :
  0 < step -> StronglySorted Z.lt (origins n step).
Proof.
  intro Hs. unfold origins.
  apply StronglySorted_map_in with (R := lt); [|apply StronglySorted_seq].
  intros i j _ _ Hij. nia.
Qed.

Lemma origin_zero_or_step n step y :
  0 < step -> 0 < n -> In y (origins n step) -> y = 0 \/ step <= y.
Proof.
  intros Hs Hn Hy. apply (in_origins _ _ _ Hs Hn) in Hy.
  destruct Hy as (k & Hk & -> & _).
  destruct (Z.eq_dec k 0) as [->|]; [left; ring | right; nia].
Qed.

(** ** Offsets of the windows *)

Lemma tile_offsets_clamped src ts ov y x :
  tile_offsets (tile_at src ts ov y x)
  = (back_extended_clamped ov y, back_extended_clamped ov x).
Proof.
  unfold tile_offsets, tile_at, back_extended_clamped; simpl.
  destruct (Z.gtb_spec y 0), (Z.gtb_spec x 0); f_equal; lia.
Qed.

Lemma clamp_inactive n ts ov y :
  0 < n -> 0 <= ov < ts -> 2 * ov <= ts ->
  In y (origins n (ts - ov)) ->
  back_extended_clamped ov y = back_extended ov y.
Proof.
  intros Hn Hov H2 Hy.
  apply origin_zero_or_step in Hy; [|lia|lia].
  unfold back_extended_clamped, back_extended.
  destruct (Z.gtb_spec y 0); lia.
Qed.

(** C4, as the code has it: for every valid configuration the windows'
    offsets, in the order of the enumerated origins (y, x), are
    [max(0, y - overlap) if y > 0 else 0] and
    [max(0, x - overlap) if x > 0 else 0]; when [2 * overlap <= tile_size]
    the clamp never acts and they are [y - overlap if y > 0 else 0] and
    [x - overlap if x > 0 else 0]. *)
Theorem window_offsets src ts ov :
  valid_config src ts ov ->
  exists ys xs g,
    py_range 0 (height src) (ts - ov) = inr ys /\
    py_range 0 (width src) (ts - ov) = inr xs /\
    tile_grid src ts ov = inr g /\
    map tile_offsets g
    = map (fun p => (back_extended_clamped ov (fst p),
                     back_extended_clamped ov (snd p))) (list_prod ys xs) /\
    (2 * ov <= ts ->
     map tile_offsets g
     = map (fun p => (back_extended ov (fst p), back_extended ov (snd p)))
           (list_prod ys xs)).
Proof.
  intros (HW & HH & Hts & Hov).
  exists (origins (height src) (ts - ov)), (origins (width src) (ts - ov)).
  eexists. split; [apply py_range_origins; lia|].
  split; [apply py_range_origins; lia|].
  split; [apply tile_grid_product; lia|].
  rewrite map_map. split.
  - apply map_ext. intros [y x]; apply tile_offsets_clamped.
  - intro H2. apply map_ext_in. intros [y x] Hin.
    apply in_prod_iff in Hin. destruct Hin as [Hy Hx]. simpl.
    rewrite tile_offsets_clamped.
    rewrite (clamp_inactive (height src) ts ov y) by auto.
    rewrite (clamp_inactive (width src) ts ov x) by auto.
    reflexivity.
Qed.

Lemma window_offsets_witness :
  valid_config (mkRaster 1 2500) 1000 100 /\
  exists ys xs g,
    py_range 0 1 (1000 - 100) = inr ys /\
    py_range 0 2500 (1000 - 100) = inr xs /\
    tile_grid (mkRaster 1 2500) 1000 100 = inr g /\
    map tile_offsets g
    = map (fun p => (back_extended_clamped 100 (fst p),
                     back_extended_clamped 100 (snd p))) (list_prod ys xs) /\
    (2 * 100 <= 1000 ->
     map tile_offsets g
     = map (fun p => (back_extended 100 (fst p), back_extended 100 (snd p)))
           (list_prod ys xs)).
Proof.
  assert (V : valid_config (mkRaster 1 2500) 1000 100)
    by (unfold valid_config; simpl; lia).
  split; [exact V | exact (window_offsets _ _ _ V)].
Defined.

(** C4, as stated, fails: with tile size 10 and overlap 9 on a 3 x 1 raster
    the origins x = 1 and x = 2 give the offset 0, not x - 9. *)
Lemma window_offsets_not_back_extended :
  valid_config (mkRaster 1 3) 10 9 /\
  py_range 0 1 (10 - 9) = inr [0] /\
  py_range 0 3 (10 - 9) = inr [0; 1; 2] /\
  exists g, tile_grid (mkRaster 1 3) 10 9 = inr g /\
    map tile_offsets g = [(0, 0); (0, 0); (0, 0)] /\
    map tile_offsets g
    <> map (fun p => (back_extended 9 (fst p), back_extended 9 (snd p)))
           (list_prod [0] [0; 1; 2]).
Proof.
  split; [unfold valid_config; simpl; lia|].
  split; [reflexivity|]. split; [reflexivity|].
  eexists; split; [reflexivity|]. split; [reflexivity|].
  vm_compute. discriminate.
Qed.

(** ** Row-major order of the grid *)

(** When the stride exceeds the overlap, the offsets grow strictly along
    the grid, in row-major order. *)
Lemma grid_sorted src ts ov :
  valid_config src ts ov -> 2 * ov < ts ->
  StronglySorted tile_lt
    (map (fun p => tile_at src ts ov (fst p) (snd p))
         (list_prod (origins (height src) (ts - ov))
                    (origins (width src) (ts - ov)))).
Proof.
  intros (HW & HH & Hts & Hov) H2.
  eapply StronglySorted_map_in;
    [|apply (StronglySorted_prod Z.lt Z.lt); apply origins_sorted; lia].
  intros [y1 x1] [y2 x2] H1 H3 Hlt; simpl in Hlt.
  apply in_prod_iff in H1, H3. destruct H1 as [Hy1 Hx1], H3 as [Hy2 Hx2].
  pose proof (origins_range _ (ts - ov) _ ltac:(lia) HH Hy1).
  pose proof (origins_range _ (ts - ov) _ ltac:(lia) HW Hx1).
  apply origin_zero_or_step in Hy2, Hx2; try lia.
  unfold tile_lt, tile_at, tile_y_off, tile_x_off; cbv beta iota zeta.
  simpl fst; simpl snd.
  destruct (Z.gtb_spec y1 0), (Z.gtb_spec y2 0),
           (Z.gtb_spec x1 0), (Z.gtb_spec x2 0); lia.
Qed.

(** ** The boundary configurations *)

Lemma same_block ts k1 k2 r :
  0 < ts -> k1 * ts <= r < k1 * ts + ts -> k2 * ts <= r < k2 * ts + ts ->
  k1 = k2.
Proof. intros; nia. Qed.

(** Without overlap, two windows that share a pixel have the same offsets. *)
Lemma shared_pixel_same_offsets src ts y1 x1 y2 x2 r c :
  0 < ts -> 0 < height src -> 0 < width src ->
  In y1 (origins (height src) ts) -> In x1 (origins (width src) ts) ->
  In y2 (origins (height src) ts) -> In x2 (origins (width src) ts) ->
  covers (tile_at src ts 0 y1 x1) r c ->
  covers (tile_at src ts 0 y2 x2) r c ->
  y1 = y2 /\ x1 = x2.
Proof.
  intros Hts HH HW Hy1 Hx1 Hy2 Hx2.
  apply in_origins in Hy1, Hx1, Hy2, Hx2; try lia.
  destruct Hy1 as (ky1 & ? & -> & ?), Hx1 as (kx1 & ? & -> & ?).
  destruct Hy2 as (ky2 & ? & -> & ?), Hx2 as (kx2 & ? & -> & ?).
  unfold covers, tile_at, tile_y_off, tile_x_off, tile_width, tile_height.
  cbv beta iota zeta. intros C1 C2.
  assert (ky1 = ky2).
  { apply (same_block ts ky1 ky2 r Hts);
      destruct (Z.gtb_spec (ky1 * ts) 0), (Z.gtb_spec (ky2 * ts) 0); nia. }
  assert (kx1 = kx2).
  { apply (same_block ts kx1 kx2 c Hts);
      destruct (Z.gtb_spec (kx1 * ts) 0), (Z.gtb_spec (kx2 * ts) 0); nia. }
  subst; auto.
Qed.

Lemma tile_lt_irrefl t : ~ tile_lt t t.
Proof. unfold tile_lt; lia. Qed.

Lemma grid_partition src ts :
  valid_config src ts 0 ->
  pairwise_disjoint
    (map (fun p => tile_at src ts 0 (fst p) (snd p))
         (list_prod (origins (height src) (ts - 0))
                    (origins (width src) (ts - 0)))).
Proof.
  intro V. pose proof V as (HW & HH & Hts & Hov).
  apply StronglySorted_pairs.
  rewrite <- (map_id (map _ _)).
  eapply StronglySorted_map_in; [|apply (grid_sorted _ _ _ V); lia].
  intros t1 t2 H1 H2 Hlt r c [C1 C2].
  apply in_map_iff in H1, H2.
  destruct H1 as ([y1 x1] & <- & H1), H2 as ([y2 x2] & <- & H2).
  apply in_prod_iff in H1, H2. rewrite Z.sub_0_r in H1, H2.
  destruct H1 as [Hy1 Hx1], H2 as [Hy2 Hx2]. simpl in *.
  destruct (shared_pixel_same_offsets src ts y1 x1 y2 x2 r c) as [-> ->];
    auto.
  exact (tile_lt_irrefl _ Hlt).
Qed.

(** C2, as the code has it: a run with [overlap = tile_size] ends in
    failure (the zero step of [range] is an error, exit status 1, nothing
    written); with [overlap = 0] and positive sizes the grid is produced
    and is a partition of the raster: its windows are pairwise disjoint and
    cover exactly the raster's pixels. *)
Theorem boundary_configurations e ts :
  0 < width (src e) -> 0 < height (src e) -> 0 < ts ->
  tile_raster_with_overlap e ts ts = (ExitFailure 1 ValueError, []) /\
  exists g, tile_grid (src e) ts 0 = inr g /\
    pairwise_disjoint g /\
    forall r c, in_raster (src e) r c <-> exists t, In t g /\ covers t r c.
Proof.
  intros HW HH Hts. split.
  - unfold tile_raster_with_overlap. now rewrite tile_grid_zero_step.
  - assert (V : valid_config (src e) ts 0) by (unfold valid_config; lia).
    destruct (grid_covers _ _ _ V) as (g & Hg & Hcov).
    exists g. split; [exact Hg|]. split; [|exact Hcov].
    rewrite tile_grid_product in Hg by lia. injection Hg as <-.
    apply grid_partition, V.
Qed.

Lemma boundary_configurations_witness :
  let e := mkEnv (mkRaster 5 7) "/out" (fun _ => true) in
  tile_raster_with_overlap e 2 2 = (ExitFailure 1 ValueError, []) /\
  exists g, tile_grid (src e) 2 0 = inr g /\
    pairwise_disjoint g /\
    forall r c, in_raster (src e) r c <-> exists t, In t g /\ covers t r c.
Proof.
  intro e. apply (boundary_configurations e 2); unfold e; simpl; lia.
Defined.

(** C2, as stated, fails: with tile size 1000 and overlap 1001 on a
    2500 x 1 raster the run does not fail; it reports success with no
    tile. *)
Lemma overlap_above_tile_size_not_rejected :
  let e := mkEnv (mkRaster 1 2500) "/out" (fun _ => true) in
  1000 < 1001 /\
  tile_raster_with_overlap e 1000 1001
  = (Success "/out/tiles" 0 1000 1001, []) /\
  failed (fst (tile_raster_with_overlap e 1000 1001)) = false.
Proof.
  intro e. split; [lia|]. split; reflexivity.
Qed.

(** ** Names of the tile files *)









(** ** The tile loop *)


Lemma process_tiles_all_ok io dir g acc :
  (forall t, In t g -> io t = true) ->
  process_tiles io dir g acc = (inr tt, acc ++ map (tile_path dir) g).
Proof.
  revert acc; induction g as [|t g IH]; intros acc Hio; simpl.
  - now rewrite app_nil_r.
  - rewrite (Hio t) by (left; reflexivity).
    rewrite IH by (intros; apply Hio; right; assumption).
    now rewrite <- app_assoc.
Qed.



Lemma tile_at_offsets_nonneg src ts ov y x :
  0 <= tile_y_off (tile_at src ts ov y x) /\
  0 <= tile_x_off (tile_at src ts ov y x).
Proof.
  unfold tile_at, tile_y_off, tile_x_off; cbv beta iota zeta. lia.
Qed.





(** * Further properties of the grid *)

(** ** Indexing the grid *)

Lemma nth_error_list_prod {A B} (la : list A) (lb : list B) i j a b :
  nth_error la i = Some a -> nth_error lb j = Some b ->
  nth_error (list_prod la lb) (i * List.length lb + j) = Some (a, b).
Proof.
  revert i; induction la as [|a0 la IH]; intros i Ha Hb.
  - destruct i; discriminate.
  - assert (Hj : (j < List.length lb)%nat)
      by (apply nth_error_Some; congruence).
    destruct i as [|i]; simpl in *.
    + injection Ha as ->.
      rewrite nth_error_app1 by (rewrite length_map; exact Hj).
      now rewrite nth_error_map, Hb.
    + rewrite nth_error_app2 by (rewrite length_map; lia).
      rewrite length_map.
      replace (List.length lb + i * List.length lb + j - List.length lb)%nat
        with (i * List.length lb + j)%nat by lia.
      now apply IH.
Qed.

Lemma nth_error_origins n step i :
  0 < step -> 0 < n -> 0 <= i < ceil_div n step ->
  nth_error (origins n step) (Z.to_nat i) = Some (i * step).
Proof.
  intros Hs Hn Hi. unfold origins.
  rewrite nth_error_map, (range_length_ceil _ _ Hs Hn).
  rewrite nth_error_nth' with (d := 0%nat) by (rewrite length_seq; lia).
  rewrite seq_nth by lia. simpl. f_equal. lia.
Qed.

(** X1: for every valid configuration the window of row [i] and column [j]
    of the grid sits at index [i * columns + j] of the emitted sequence,
    where [columns = ceil(width / stride)], and it is the window of the
    nominal origin [(i * stride, j * stride)]. *)
Theorem grid_index src ts ov i j :
  valid_config src ts ov ->
  0 <= i < ceil_div (height src) (ts - ov) ->
  0 <= j < ceil_div (width src) (ts - ov) ->
  exists g, tile_grid src ts ov = inr g /\
    nth_error g (Z.to_nat (i * ceil_div (width src) (ts - ov) + j))
    = Some (tile_at src ts ov (i * (ts - ov)) (j * (ts - ov))).
Proof.
  intros (HW & HH & Hts & Hov) Hi Hj.
  eexists; split; [apply tile_grid_product; lia|].
  rewrite nth_error_map.
  pose proof (length_origins (width src) (ts - ov) ltac:(lia) HW) as L.
  replace (Z.to_nat (i * ceil_div (width src) (ts - ov) + j))
    with (Z.to_nat i * List.length (origins (width src) (ts - ov))
          + Z.to_nat j)%nat by nia.
  rewrite (nth_error_list_prod _ _ _ _ (i * (ts - ov)) (j * (ts - ov))).
  - reflexivity.
  - apply nth_error_origins; lia.
  - apply nth_error_origins; lia.
Qed.

Lemma grid_index_witness :
  exists g, tile_grid (mkRaster 4000 4000) 2000 20 = inr g /\
    nth_error g (Z.to_nat (1 * ceil_div 4000 (2000 - 20) + 2))
    = Some (tile_at (mkRaster 4000 4000) 2000 20
                    (1 * (2000 - 20)) (2 * (2000 - 20))).
Proof.
  apply (grid_index (mkRaster 4000 4000) 2000 20 1 2);
    unfold valid_config; simpl; vm_compute; intuition discriminate.
Defined.

(** ** Degenerate rasters *)

Lemma origins_empty n step : 0 < step -> n <= 0 -> origins n step = [].
Proof.
  intros Hs Hn. unfold origins, range_length.
  destruct (Z.ltb_spec 0 step); [|lia].
  destruct (Z.ltb_spec 0 n); [lia|reflexivity].
Qed.

Lemma list_prod_nil_r {A B} (la : list A) : list_prod la (@nil B) = [].
Proof. induction la; simpl; auto. Qed.

(** X2: with a positive stride, a raster whose height or width is not
    positive gives an empty grid, and the run ends with the success report
    and a total of 0 tiles; nothing is raised for the bad dimensions. *)
Theorem empty_raster_succeeds_empty e ts ov :
  0 < ts - ov -> height (src e) <= 0 \/ width (src e) <= 0 ->
  tile_grid (src e) ts ov = inr [] /\
  tile_raster_with_overlap e ts ov
  = (Success (tiles_dir_of (output_dir e)) 0 ts ov, []).
Proof.
  intros Hs Hdim.
  assert (G : tile_grid (src e) ts ov = inr []).
  { rewrite tile_grid_product by lia. f_equal.
    destruct Hdim as [H|H]; rewrite (origins_empty _ _ Hs H); simpl; auto.
    now rewrite list_prod_nil_r. }
  split; [exact G|].
  unfold tile_raster_with_overlap. now rewrite G.
Qed.

Lemma empty_raster_succeeds_empty_witness :
  let e := mkEnv (mkRaster 0 2500) "/out" (fun _ => false) in
  tile_grid (src e) 1000 100 = inr [] /\
  tile_raster_with_overlap e 1000 100
  = (Success (tiles_dir_of (output_dir e)) 0 1000 100, []).
Proof.
  intro e. apply (empty_raster_succeeds_empty e 1000 100);
    unfold e; simpl; lia.
Defined.

Lemma origins_single n step :
  0 < n <= step -> origins n step = [0].
Proof.
  intro Hn. unfold origins, range_length.
  destruct (Z.ltb_spec 0 step); [|lia].
  destruct (Z.ltb_spec 0 n); [|lia].
  rewrite Z.div_small by lia. reflexivity.
Qed.

(** X3: a raster that fits within one stride on both axes gives exactly one
    window, the whole raster [(0, 0, width, height)]. *)
Theorem small_raster_single_window src ts ov :
  valid_config src ts ov ->
  height src <= ts - ov -> width src <= ts - ov ->
  tile_grid src ts ov = inr [(0, 0, width src, height src)].
Proof.
  intros (HW & HH & Hts & Hov) Hh Hw.
  rewrite tile_grid_product by lia.
  rewrite !origins_single by lia. simpl. unfold tile_at. simpl.
  repeat f_equal; lia.
Qed.

Lemma small_raster_single_window_witness :
  tile_grid (mkRaster 300 700) 1000 100 = inr [(0, 0, 700, 300)].
Proof.
  apply (small_raster_single_window (mkRaster 300 700) 1000 100);
    unfold valid_config; simpl; lia.
Defined.

(** ** Sizes of the windows *)

Lemma tile_at_size src ts ov y x :
  0 <= ov ->
  let t := tile_at src ts ov y x in
  tile_width t <= ts + ov /\ tile_height t <= ts + ov /\
  (tile_width t < ts -> tile_x_off t + tile_width t = width src) /\
  (tile_height t < ts -> tile_y_off t + tile_height t = height src).
Proof.
  intros Hov. unfold tile_at, tile_width, tile_height, tile_x_off, tile_y_off.
  cbv beta iota zeta.
  destruct (Z.gtb_spec x 0), (Z.gtb_spec y 0); lia.
Qed.

(** X4: for every valid configuration no window is wider or higher than
    [tile_size + overlap], and a window narrower (or lower) than
    [tile_size] ends exactly on the raster's right (or bottom) edge: only
    the clamp at the boundary makes a window small. *)
Theorem window_sizes src ts ov :
  valid_config src ts ov ->
  exists g, tile_grid src ts ov = inr g /\
    Forall (fun t =>
              tile_width t <= ts + ov /\ tile_height t <= ts + ov /\
              (tile_width t < ts ->
               tile_x_off t + tile_width t = width src) /\
              (tile_height t < ts ->
               tile_y_off t + tile_height t = height src)) g.
Proof.
  intro V. destruct (in_tile_grid _ _ _ V) as (g & Hg & Hin).
  exists g; split; [exact Hg|]. apply Forall_forall. intros t Ht.
  apply Hin in Ht. destruct Ht as (y & x & _ & _ & ->).
  apply tile_at_size. unfold valid_config in V. lia.
Qed.

Lemma window_sizes_witness :
  exists g, tile_grid (mkRaster 1 2500) 1000 100 = inr g /\
    Forall (fun t =>
              tile_width t <= 1000 + 100 /\ tile_height t <= 1000 + 100 /\
              (tile_width t < 1000 ->
               tile_x_off t + tile_width t = width (mkRaster 1 2500)) /\
              (tile_height t < 1000 ->
               tile_y_off t + tile_height t = height (mkRaster 1 2500))) g.
Proof.
  apply (window_sizes (mkRaster 1 2500) 1000 100);
    unfold valid_config; simpl; lia.
Defined.

(** ** Overlap of neighbouring windows *)

Lemma neighbour_span_overlap n ts ov a :
  0 < n -> 0 <= ov < ts -> 2 * ov <= ts ->
  In a (origins n (ts - ov)) ->
  span_overlap
    (Z.max 0 (if a >? 0 then a - ov else 0))
    (Z.min (ts + (if a >? 0 then ov else 0))
           (n - Z.max 0 (if a >? 0 then a - ov else 0)))
    (Z.max 0 (if a + (ts - ov) >? 0 then a + (ts - ov) - ov else 0))
    (Z.min (ts + (if a + (ts - ov) >? 0 then ov else 0))
           (n - Z.max 0 (if a + (ts - ov) >? 0
                         then a + (ts - ov) - ov else 0)))
  <= 2 * ov.
Proof.
  intros Hn Hov H2 Ha.
  apply origin_zero_or_step in Ha; [|lia|lia].
  unfold span_overlap.
  destruct (Z.gtb_spec a 0), (Z.gtb_spec (a + (ts - ov)) 0); lia.
Qed.

(** X5: for every valid configuration with [2 * overlap <= tile_size], two
    windows at consecutive nominal origins of a row share at most
    [2 * overlap] columns, and two windows at consecutive origins of a
    column share at most [2 * overlap] rows. *)
Theorem neighbour_overlap_bound src ts ov y x :
  valid_config src ts ov -> 2 * ov <= ts ->
  In y (origins (height src) (ts - ov)) ->
  In x (origins (width src) (ts - ov)) ->
  x_overlap (tile_at src ts ov y x) (tile_at src ts ov y (x + (ts - ov)))
  <= 2 * ov /\
  y_overlap (tile_at src ts ov y x) (tile_at src ts ov (y + (ts - ov)) x)
  <= 2 * ov.
Proof.
  intros (HW & HH & Hts & Hov) H2 Hy Hx.
  unfold x_overlap, y_overlap, tile_at,
    tile_x_off, tile_y_off, tile_width, tile_height.
  cbv beta iota zeta. split.
  - now apply neighbour_span_overlap.
  - now apply neighbour_span_overlap.
Qed.

Lemma neighbour_overlap_bound_witness :
  x_overlap (tile_at (mkRaster 4000 4000) 2000 20 1980 0)
            (tile_at (mkRaster 4000 4000) 2000 20 1980 (0 + (2000 - 20)))
  <= 2 * 20 /\
  y_overlap (tile_at (mkRaster 4000 4000) 2000 20 1980 0)
            (tile_at (mkRaster 4000 4000) 2000 20 (1980 + (2000 - 20)) 0)
  <= 2 * 20.
Proof.
  apply (neighbour_overlap_bound (mkRaster 4000 4000) 2000 20 1980 0);
    unfold valid_config; simpl; try lia; vm_compute; intuition.
Defined.

(** * Further properties of the tile files *)

(** ** Reading a file name back *)

Lemma parse_zeros k s d :
  NilEmpty.uint_of_string s = Some d ->
  exists d', NilEmpty.uint_of_string (zeros k ++ s) = Some d' /\
             N.of_uint d' = N.of_uint d.
Proof.
  intro Hs. induction k as [|k (d' & Hd' & E)]; simpl.
  - exists d; auto.
  - rewrite Hd'. simpl. exists (Decimal.D0 d'); auto.
Qed.

Lemma parse_digits (m : N) :
  exists d, NilEmpty.uint_of_string (NilZero.string_of_uint (N.to_uint m))
            = Some d /\ N.of_uint d = m.
Proof.
  pose proof (DecimalN.Unsigned.of_to m) as E.
  destruct (N.to_uint m) as [| | | | | | | | | |] eqn:U;
    try (eexists; split; [apply NilEmpty.usu | exact E]).
  exists (Decimal.D0 Decimal.Nil). split; [reflexivity|].
  rewrite <- E. reflexivity.
Qed.

(** The decimal field of a non-negative offset reads back as the offset. *)
Lemma format_04d_parse n :
  0 <= n ->
  exists d, NilEmpty.uint_of_string (format_04d n) = Some d /\
            Z.of_N (N.of_uint d) = n.
Proof.
  intro Hn. unfold format_04d.
  destruct (Z.ltb_spec n 0); [lia|]. simpl append.
  destruct (parse_digits (Z.abs_N n)) as (d & Hd & E).
  destruct (parse_zeros
              (4 - String.length ""
               - String.length
                   (NilZero.string_of_uint (N.to_uint (Z.abs_N n))))
              _ d Hd) as (d' & Hd' & E').
  exists d'. split; [exact Hd'|].
  rewrite E', E, N2Z.inj_abs_N. lia.
Qed.

Lemma format_04d_inj n m :
  0 <= n -> 0 <= m -> format_04d n = format_04d m -> n = m.
Proof.
  intros Hn Hm E.
  destruct (format_04d_parse n Hn) as (d & Hd & <-).
  destruct (format_04d_parse m Hm) as (d' & Hd' & <-).
  rewrite E in Hd. congruence.
Qed.

(** A character that is not a digit ends a decimal field: two strings made
    of a field, that character and a rest are equal only part by part. *)
Lemma split_at_separator c s1 s2 r1 r2 d1 d2 :
  (forall d, uint_of_char c d = None) ->
  NilEmpty.uint_of_string s1 = Some d1 ->
  NilEmpty.uint_of_string s2 = Some d2 ->
  (s1 ++ String c r1 = s2 ++ String c r2)%string ->
  s1 = s2 /\ r1 = r2.
Proof.
  intro Hc. revert s2 d1 d2.
  induction s1 as [|a s1 IH]; intros [|b s2] d1 d2 P1 P2 E; simpl in *.
  - injection E as ->; auto.
  - injection E as <- _. rewrite Hc in P2. discriminate.
  - injection E as -> _. rewrite Hc in P1. discriminate.
  - injection E as -> E.
    destruct (NilEmpty.uint_of_string s1) as [e1|] eqn:Q1;
      [|discriminate].
    destruct (NilEmpty.uint_of_string s2) as [e2|] eqn:Q2;
      [|discriminate].
    destruct (IH s2 e1 e2 eq_refl Q2 E) as [-> ->]. auto.
Qed.

Lemma string_app_inv_head (p s t : string) :
  (p ++ s = p ++ t)%string -> s = t.
Proof.
  induction p as [|c p IH]; simpl; intro E; [exact E|].
  injection E as E. auto.
Qed.

Lemma path_join_inj dir a b : path_join dir a = path_join dir b -> a = b.
Proof.
  unfold path_join. destruct (ends_with_slash dir); intro E.
  - now apply string_app_inv_head in E.
  - now apply string_app_inv_head, (string_app_inv_head "/") in E.
Qed.

Lemma path_join_root name : path_join "/" name = ("/" ++ name)%string.
Proof. reflexivity. Qed.

(** Windows with different non-negative offsets get different file names. *)
Lemma tile_name_inj t1 t2 :
  0 <= tile_y_off t1 -> 0 <= tile_x_off t1 ->
  0 <= tile_y_off t2 -> 0 <= tile_x_off t2 ->
  tile_name t1 = tile_name t2 ->
  tile_y_off t1 = tile_y_off t2 /\ tile_x_off t1 = tile_x_off t2.
Proof.
  intros Hy1 Hx1 Hy2 Hx2 E. unfold tile_name in E.
  apply string_app_inv_head in E.
  destruct (format_04d_parse _ Hy1) as (dy1 & Py1 & _).
  destruct (format_04d_parse _ Hy2) as (dy2 & Py2 & _).
  destruct (format_04d_parse _ Hx1) as (dx1 & Px1 & _).
  destruct (format_04d_parse _ Hx2) as (dx2 & Px2 & _).
  apply (split_at_separator "_" _ _ _ _ dy1 dy2) in E;
    [|intros [d|]; reflexivity|exact Py1|exact Py2].
  destruct E as [Ey E].
  apply (split_at_separator "." _ _ _ _ dx1 dx2) in E;
    [|intros [d|]; reflexivity|exact Px1|exact Px2].
  destruct E as [Ex _].
  split; apply format_04d_inj; assumption.
Qed.

Lemma StronglySorted_neq_NoDup {A} (l : list A) :
  StronglySorted (fun a b => a <> b) l -> NoDup l.
Proof.
  induction 1 as [|a l S IH F]; constructor; auto.
  intro Hin. rewrite Forall_forall in F. exact (F a Hin eq_refl).
Qed.

Lemma grid_paths_distinct src ts ov dir :
  valid_config src ts ov -> 2 * ov < ts ->
  NoDup (map (tile_path dir)
           (map (fun p => tile_at src ts ov (fst p) (snd p))
                (list_prod (origins (height src) (ts - ov))
                           (origins (width src) (ts - ov))))).
Proof.
  intros V H2. pose proof V as (HW & HH & Hts & Hov).
  set (g := map _ (list_prod _ _)).
  assert (Pos : forall t, In t g -> 0 <= tile_y_off t /\ 0 <= tile_x_off t).
  { intros t Ht. apply in_map_iff in Ht. destruct Ht as ([y x] & <- & _).
    apply tile_at_offsets_nonneg. }
  apply StronglySorted_neq_NoDup.
  eapply StronglySorted_map_in; [|apply (grid_sorted _ _ _ V H2)].
  fold g. intros t1 t2 H1 H3 Hlt E.
  unfold tile_path in E. apply path_join_inj in E.
  destruct (Pos t1 H1), (Pos t2 H3).
  apply tile_name_inj in E; try assumption.
  unfold tile_lt in Hlt. lia.
Qed.

(** X6: for every valid configuration with [2 * overlap < tile_size], and
    a raster of any size, the windows of the grid get pairwise different
    tile paths: no tile file is written twice. *)
Theorem tile_paths_distinct src ts ov dir :
  valid_config src ts ov -> 2 * ov < ts ->
  exists g, tile_grid src ts ov = inr g /\
            NoDup (map (tile_path dir) g).
Proof.
  intros V H2. pose proof V as (HW & HH & Hts & Hov).
  eexists; split; [apply tile_grid_product; lia|].
  now apply grid_paths_distinct.
Qed.

Lemma tile_paths_distinct_witness :
  exists g, tile_grid (mkRaster 1 15000) 5000 0 = inr g /\
            NoDup (map (tile_path "/out/tiles") g).
Proof.
  apply (tile_paths_distinct (mkRaster 1 15000) 5000 0 "/out/tiles");
    unfold valid_config; simpl; lia.
Defined.

(** X7: for every valid configuration with [tile_size <= 2 * overlap] and
    a raster wider than one stride, the first two windows of the grid both
    have the offsets (0, 0) and so the same tile path: the second write
    replaces the first file. The second window contains the first. *)
Theorem first_two_tiles_share_path src ts ov dir :
  valid_config src ts ov -> ts <= 2 * ov -> ts - ov < width src ->
  exists g t0 t1,
    tile_grid src ts ov = inr g /\
    nth_error g 0 = Some t0 /\ nth_error g 1 = Some t1 /\
    tile_path dir t0 = tile_path dir t1 /\
    forall r c, covers t0 r c -> covers t1 r c.
Proof.
  intros (HW & HH & Hts & Hov) H2 Hw.
  pose proof (ceil_div_bounds (height src) (ts - ov) ltac:(lia)) as BH.
  pose proof (ceil_div_bounds (width src) (ts - ov) ltac:(lia)) as BW.
  pose proof (nth_error_origins (height src) (ts - ov) 0
                ltac:(lia) HH ltac:(nia)) as Y0.
  pose proof (nth_error_origins (width src) (ts - ov) 0
                ltac:(lia) HW ltac:(nia)) as X0.
  pose proof (nth_error_origins (width src) (ts - ov) 1
                ltac:(lia) HW ltac:(nia)) as X1.
  change (Z.to_nat 0) with 0%nat in Y0, X0.
  change (Z.to_nat 1) with 1%nat in X1.
  rewrite Z.mul_0_l in Y0, X0. rewrite Z.mul_1_l in X1.
  exists (map (fun p => tile_at src ts ov (fst p) (snd p))
              (list_prod (origins (height src) (ts - ov))
                         (origins (width src) (ts - ov)))),
         (tile_at src ts ov 0 0), (tile_at src ts ov 0 (ts - ov)).
  split; [apply tile_grid_product; lia|].
  split; [|split; [|split]].
  - pose proof (nth_error_list_prod _ _ 0 0 0 0 Y0 X0) as N0.
    cbn [Nat.mul Nat.add] in N0. now rewrite nth_error_map, N0.
  - pose proof (nth_error_list_prod _ _ 0 1 0 (ts - ov) Y0 X1) as N1.
    cbn [Nat.mul Nat.add] in N1. now rewrite nth_error_map, N1.
  - assert (Ey : tile_y_off (tile_at src ts ov 0 0)
                 = tile_y_off (tile_at src ts ov 0 (ts - ov)))
      by reflexivity.
    assert (Ex : tile_x_off (tile_at src ts ov 0 0)
                 = tile_x_off (tile_at src ts ov 0 (ts - ov))).
    { unfold tile_at, tile_x_off; cbv beta iota zeta.
      change (0 >? 0) with false; cbv iota.
      destruct (Z.gtb_spec (ts - ov) 0); lia. }
    unfold tile_path, tile_name. now rewrite Ey, Ex.
  - intros r c. unfold covers, tile_at,
      tile_x_off, tile_y_off, tile_width, tile_height.
    cbv beta iota zeta. change (0 >? 0) with false; cbv iota.
    destruct (Z.gtb_spec (ts - ov) 0); lia.
Qed.

Lemma first_two_tiles_share_path_witness :
  exists g t0 t1,
    tile_grid (mkRaster 20 20) 10 5 = inr g /\
    nth_error g 0 = Some t0 /\ nth_error g 1 = Some t1 /\
    tile_path "/out/tiles" t0 = tile_path "/out/tiles" t1 /\
    forall r c, covers t0 r c -> covers t1 r c.
Proof.
  apply (first_two_tiles_share_path (mkRaster 20 20) 10 5 "/out/tiles");
    unfold valid_config; simpl; lia.
Defined.

(** * Further properties of a run *)

Lemma process_tiles_first_failure io dir pre t rest acc :
  (forall u, In u pre -> io u = true) -> io t = false ->
  process_tiles io dir (pre ++ t :: rest) acc
  = (inl IOFailure, acc ++ map (tile_path dir) pre).
Proof.
  revert acc; induction pre as [|u pre IH]; intros acc Hpre Ht; simpl.
  - rewrite Ht. now rewrite app_nil_r.
  - rewrite (Hpre u) by (left; reflexivity).
    rewrite IH by (auto; intros; apply Hpre; right; assumption).
    now rewrite <- app_assoc.
Qed.

(** The grid splits at the first window whose read or write fails. *)
Lemma first_failing_tile (io : tile -> bool) g :
  (forall t, In t g -> io t = true) \/
  exists pre t rest, g = pre ++ t :: rest /\
    (forall u, In u pre -> io u = true) /\ io t = false.
Proof.
  induction g as [|a g [All | (pre & t & rest & -> & Hpre & Ht)]].
  - left; intros t [].
  - destruct (io a) eqn:Ha.
    + left. intros t [<-|Ht]; auto.
    + right. exists [], a, g. repeat split; auto; intros u [].
  - destruct (io a) eqn:Ha.
    + right. exists (a :: pre), t, rest.
      repeat split; auto; intros u [<-|Hu]; auto.
    + right. exists [], a, (pre ++ t :: rest).
      repeat split; auto; intros u [].
Qed.

(** X8: whenever the stride is not zero and no read or write fails, the
    run ends with the success report whose total is the number of windows
    of the grid, and it has written one tile path per window, in grid
    order. *)
Theorem run_all_tiles_written e ts ov :
  ts - ov <> 0 ->
  exists g, tile_grid (src e) ts ov = inr g /\
    ((forall t, In t g -> tile_io_ok e t = true) ->
     tile_raster_with_overlap e ts ov
     = (Success (tiles_dir_of (output_dir e)) (List.length g) ts ov,
        map (tile_path (tiles_dir_of (output_dir e))) g)).
Proof.
  intro Hs. eexists; split; [apply tile_grid_product; exact Hs|].
  intro Hio. unfold tile_raster_with_overlap.
  rewrite tile_grid_product by exact Hs.
  now rewrite process_tiles_all_ok.
Qed.

Lemma run_all_tiles_written_witness :
  let e := mkEnv (mkRaster 1 2500) "/out" (fun _ => true) in
  tile_raster_with_overlap e 1000 100
  = (Success "/out/tiles" 3 1000 100,
     ["/out/tiles/tile_0000_0000.tif"; "/out/tiles/tile_0000_0800.tif";
      "/out/tiles/tile_0000_1700.tif"]%string).
Proof.
  intro e.
  destruct (run_all_tiles_written e 1000 100 ltac:(discriminate))
    as (g & Hg & Hrun).
  rewrite Hrun by reflexivity.
  change (tile_grid (src e) 1000 100) with
    (@inr exn _ [(0, 0, 1000, 1); (0, 800, 1100, 1); (0, 1700, 800, 1)])
    in Hg.
  injection Hg as <-. reflexivity.
Defined.

(** From the opened raster on, a run fails exactly when the stride is zero
    or the read or write of some window of the grid fails. *)
Lemma opened_run_fails_iff e ts ov :
  failed (fst (tile_raster_with_overlap e ts ov)) = true <->
  ts - ov = 0 \/
  exists g t, tile_grid (src e) ts ov = inr g /\ In t g /\
              tile_io_ok e t = false.
Proof.
  unfold tile_raster_with_overlap.
  destruct (Z.eq_dec (ts - ov) 0) as [Z0|NZ].
  - assert (ov = ts) by lia. subst ov. rewrite tile_grid_zero_step. simpl.
    split; auto.
  - rewrite tile_grid_product by exact NZ.
    set (g := map _ _).
    destruct (first_failing_tile (tile_io_ok e) g)
      as [All | (pre & t & rest & Eg & Hpre & Ht)].
    + rewrite process_tiles_all_ok by exact All. simpl. split.
      * discriminate.
      * intros [Z0 | (g' & t & Hg' & Hin & Ht)]; [contradiction|].
        injection Hg' as <-. rewrite (All t Hin) in Ht. discriminate.
    + rewrite Eg, process_tiles_first_failure by assumption. simpl. split.
      * intros _. right. exists (pre ++ t :: rest), t.
        split; [reflexivity|]. split; [|exact Ht].
        apply in_or_app. right; left; reflexivity.
      * reflexivity.
Qed.

(** * Properties of the saved tiles *)

(** ** Dictionaries *)

Lemma dict_get_set_same {O} k (v : pyval O) d :
  dict_get k (dict_set k v d) = Some v.
Proof.
  induction d as [|[k' v'] d IH]; simpl.
  - now rewrite String.eqb_refl.
  - destruct (String.eqb k k') eqn:E; simpl; rewrite E; auto.
Qed.

Lemma dict_get_set_other {O} k k' (v : pyval O) d :
  k <> k' -> dict_get k' (dict_set k v d) = dict_get k' d.
Proof.
  intro N. induction d as [|[k0 v0] d IH]; simpl.
  - apply String.eqb_neq in N. rewrite String.eqb_sym in N. now rewrite N.
  - destruct (String.eqb k k0) eqn:E; simpl.
    + apply String.eqb_eq in E. subst k0.
      apply String.eqb_neq in N. rewrite String.eqb_sym in N.
      now rewrite N.
    + now rewrite IH.
Qed.

(** ** The loop over the grid *)

Lemma save_tiles_paths {O D} io (s : source O D) dir profile g saved acc :
  map gt_path saved = acc ->
  fst (save_tiles io s dir profile g saved)
  = fst (process_tiles io dir g acc) /\
  map gt_path (snd (save_tiles io s dir profile g saved))
  = snd (process_tiles io dir g acc).
Proof.
  revert saved acc; induction g as [|t g IH]; intros saved acc E; simpl.
  - auto.
  - destruct (io t); [|simpl; auto].
    destruct t as [[[y x] w] h].
    apply IH. rewrite map_app, E. reflexivity.
Qed.

Lemma save_tiles_saved {O D} io (s : source O D) dir profile g saved f :
  In f (snd (save_tiles io s dir profile g saved)) ->
  In f saved \/
  exists t, In t g /\
    f = save_tile_as_geotiff (src_read s t) (tile_path dir t) profile
          (tile_x_off t) (tile_y_off t) (tile_width t) (tile_height t)
          (window_transform s t (src_transform s)).
Proof.
  revert saved; induction g as [|t g IH]; intros saved; simpl; [auto|].
  destruct (io t); simpl; [|auto].
  destruct t as [[[y x] w] h]. intro Hf. apply IH in Hf.
  destruct Hf as [Hf | (t' & Ht' & ->)].
  - apply in_app_or in Hf. destruct Hf as [Hf | [<- | []]]; [auto|].
    right. exists (y, x, w, h). split; [left; reflexivity|reflexivity].
  - right. exists t'. auto.
Qed.

(** The run seen through its saved files ends the same way as the run
    seen through its tile paths, and the paths of the saved files are those
    tile paths, in the same order. *)
Lemma saved_files_paths {O D} e (s : source O D) ts ov :
  fst (tile_raster_files e s ts ov) = fst (tile_raster_with_overlap e ts ov)
  /\ map gt_path (snd (tile_raster_files e s ts ov))
     = snd (tile_raster_with_overlap e ts ov).
Proof.
  unfold tile_raster_files, tile_raster_with_overlap.
  destruct (tile_grid (src e) ts ov) as [err|g]; [auto|].
  destruct (save_tiles_paths (tile_io_ok e) s (tiles_dir_of (output_dir e))
              (output_profile s) g [] [] eq_refl) as [E1 E2].
  destruct (save_tiles _ _ _ _ g []) as [[e1|u1] w1];
    destruct (process_tiles _ _ g []) as [[e2|u2] w2];
    simpl in *; try discriminate; split; congruence.
Qed.

Lemma tile_raster_files_saved {O D} e (s : source O D) ts ov f :
  In f (snd (tile_raster_files e s ts ov)) ->
  exists g t, tile_grid (src e) ts ov = inr g /\ In t g /\
    f = save_tile_as_geotiff (src_read s t)
          (tile_path (tiles_dir_of (output_dir e)) t) (output_profile s)
          (tile_x_off t) (tile_y_off t) (tile_width t) (tile_height t)
          (window_transform s t (src_transform s)).
Proof.
  unfold tile_raster_files.
  destruct (tile_grid (src e) ts ov) as [err|g]; [intros []|].
  intro Hf.
  assert (W : In f (snd (save_tiles (tile_io_ok e) s
                           (tiles_dir_of (output_dir e))
                           (output_profile s) g []))).
  { destruct (save_tiles _ _ _ _ g []) as [[err|u] w]; exact Hf. }
  apply save_tiles_saved in W. destruct W as [[] | (t & Ht & ->)].
  exists g, t. auto.
Qed.

Ltac dict_lookup :=
  unfold save_tile_as_geotiff, output_profile, dict_update; simpl;
  repeat (rewrite dict_get_set_other by discriminate);
  apply dict_get_set_same.

(** X11: every file a run saves belongs to a window of the grid: it is
    at that window's tile path, holds the block read from that window, and
    its profile has the window's height and width, the transform derived
    for the window, the GTiff driver, LZW compression and internal tiling
    in 256 x 256 blocks, whatever the source profile says for these keys. *)
Theorem saved_tile_profile {O D} e (s : source O D) ts ov f :
  In f (snd (tile_raster_files e s ts ov)) ->
  exists g t, tile_grid (src e) ts ov = inr g /\ In t g /\
    gt_path f = tile_path (tiles_dir_of (output_dir e)) t /\
    gt_band1 f = src_read s t /\
    dict_get "height" (gt_profile f) = Some (VInt (tile_height t)) /\
    dict_get "width" (gt_profile f) = Some (VInt (tile_width t)) /\
    dict_get "transform" (gt_profile f)
    = Some (VObj (window_transform s t (src_transform s))) /\
    dict_get "driver" (gt_profile f) = Some (VStr "GTiff") /\
    dict_get "compress" (gt_profile f) = Some (VStr "lzw") /\
    dict_get "tiled" (gt_profile f) = Some (VBool true) /\
    dict_get "blockxsize" (gt_profile f) = Some (VInt 256) /\
    dict_get "blockysize" (gt_profile f) = Some (VInt 256).
Proof.
  intro Hf. apply tile_raster_files_saved in Hf.
  destruct Hf as (g & t & Hg & Ht & ->).
  exists g, t. split; [exact Hg|]. split; [exact Ht|].
  split; [reflexivity|]. split; [reflexivity|].
  repeat split; dict_lookup.
Qed.

(** X12: in the profile of every file a run saves, each key other than
    height, width, transform, driver, compress, tiled, blockxsize and
    blockysize has the value it has in the source raster's profile (or is
    absent when it is absent there): data type, coordinate system, nodata
    value and band count are carried over unchanged. *)
Theorem saved_tile_profile_preserved {O D} e (s : source O D) ts ov f k :
  In f (snd (tile_raster_files e s ts ov)) ->
  ~ In k forced_keys ->
  dict_get k (gt_profile f) = dict_get k (src_profile s).
Proof.
  intros Hf Hk. apply tile_raster_files_saved in Hf.
  destruct Hf as (g & t & _ & _ & ->).
  unfold save_tile_as_geotiff, output_profile, dict_update; simpl.
  repeat (rewrite dict_get_set_other
            by (intro E; apply Hk; rewrite <- E; simpl; tauto)).
  reflexivity.
Qed.

Lemma saved_tile_profile_witness :
  let e := mkEnv (mkRaster 1 2500) "/out" (fun _ => true) in
  let s := mkSource
             [("driver"%string, VStr "PNG"); ("dtype"%string, VStr "float32");
              ("width"%string, VInt 2500); ("height"%string, VInt 1);
              ("crs"%string, VObj 7%nat)]
             0%nat (fun t : tile => t) (fun _ o => S o) in
  let f := save_tile_as_geotiff (0, 800, 1100, 1)
             "/out/tiles/tile_0000_0800.tif" (output_profile s)
             800 0 1100 1 1%nat in
  exists g t, tile_grid (src e) 1000 100 = inr g /\ In t g /\
    gt_path f = tile_path (tiles_dir_of (output_dir e)) t /\
    gt_band1 f = src_read s t /\
    dict_get "height" (gt_profile f) = Some (VInt (tile_height t)) /\
    dict_get "width" (gt_profile f) = Some (VInt (tile_width t)) /\
    dict_get "transform" (gt_profile f)
    = Some (VObj (window_transform s t (src_transform s))) /\
    dict_get "driver" (gt_profile f) = Some (VStr "GTiff") /\
    dict_get "compress" (gt_profile f) = Some (VStr "lzw") /\
    dict_get "tiled" (gt_profile f) = Some (VBool true) /\
    dict_get "blockxsize" (gt_profile f) = Some (VInt 256) /\
    dict_get "blockysize" (gt_profile f) = Some (VInt 256).
Proof.
  intros e s f. apply (saved_tile_profile e s 1000 100 f).
  vm_compute. right; left; reflexivity.
Defined.

Lemma saved_tile_profile_preserved_witness :
  let e := mkEnv (mkRaster 1 2500) "/out" (fun _ => true) in
  let s := mkSource
             [("driver"%string, VStr "PNG"); ("dtype"%string, VStr "float32");
              ("width"%string, VInt 2500); ("height"%string, VInt 1);
              ("crs"%string, VObj 7%nat)]
             0%nat (fun t : tile => t) (fun _ o => S o) in
  let f := save_tile_as_geotiff (0, 800, 1100, 1)
             "/out/tiles/tile_0000_0800.tif" (output_profile s)
             800 0 1100 1 1%nat in
  dict_get "dtype" (gt_profile f) = dict_get "dtype" (src_profile s).
Proof.
  intros e s f.
  apply (saved_tile_profile_preserved e s 1000 100 f "dtype").
  - vm_compute. right; left; reflexivity.
  - unfold forced_keys. simpl. intuition discriminate.
Defined.

(** * Order, nominal cells and negative overlaps *)

(** X13: for every valid configuration with [2 * overlap < tile_size] the
    windows are emitted in strictly increasing row-major order of their
    offsets: each window lies in an earlier row than every later one, or
    in the same row and an earlier column. *)
Theorem grid_row_major_order src ts ov :
  valid_config src ts ov -> 2 * ov < ts ->
  exists g, tile_grid src ts ov = inr g /\ StronglySorted tile_lt g.
Proof.
  intros V H2. unfold valid_config in V.
  eexists; split; [apply tile_grid_product; lia|].
  apply grid_sorted; assumption.
Qed.

Lemma grid_row_major_order_witness :
  exists g, tile_grid (mkRaster 4000 4000) 2000 20 = inr g /\
            StronglySorted tile_lt g.
Proof.
  apply (grid_row_major_order (mkRaster 4000 4000) 2000 20);
    unfold valid_config; simpl; lia.
Defined.

(** X14: for every valid configuration the window of a nominal origin
    (y, x) contains the whole nominal cell of that origin, the rows from
    y and the columns from x up to [tile_size] further or the raster's
    edge: moving the origin back never loses the far side of the cell. *)
Theorem window_contains_nominal_cell src ts ov y x r c :
  valid_config src ts ov ->
  In y (origins (height src) (ts - ov)) ->
  In x (origins (width src) (ts - ov)) ->
  y <= r < Z.min (y + ts) (height src) ->
  x <= c < Z.min (x + ts) (width src) ->
  covers (tile_at src ts ov y x) r c.
Proof.
  intros (HW & HH & Hts & Hov) Hy Hx Hr Hc.
  apply origins_range in Hy; [|lia|lia].
  apply origins_range in Hx; [|lia|lia].
  unfold covers, tile_at, tile_x_off, tile_y_off, tile_width, tile_height.
  cbv beta iota zeta.
  destruct (Z.gtb_spec y 0), (Z.gtb_spec x 0); lia.
Qed.

Lemma window_contains_nominal_cell_witness :
  covers (tile_at (mkRaster 1 2500) 1000 100 0 900) 0 1899.
Proof.
  apply (window_contains_nominal_cell (mkRaster 1 2500) 1000 100 0 900);
    unfold valid_config; simpl; try lia; vm_compute; intuition.
Defined.

(** X15: a negative overlap is not refused. With a positive tile size and
    a raster wider than one tile the grid is produced, and the pixel of
    row 0 and column [tile_size] lies in the raster but in no window:
    the grid leaves gaps. *)
Theorem negative_overlap_leaves_gap src ts ov :
  0 < ts -> ov < 0 -> ts < width src -> 0 < height src ->
  exists g, tile_grid src ts ov = inr g /\
    in_raster src 0 ts /\
    forall t, In t g -> ~ covers t 0 ts.
Proof.
  intros Hts Hov HW HH.
  eexists; split; [apply tile_grid_product; lia|].
  split; [unfold in_raster; lia|].
  intros t Ht. apply in_map_iff in Ht.
  destruct Ht as ([y x] & <- & Hp). apply in_prod_iff in Hp.
  destruct Hp as [_ Hx]. simpl.
  apply origin_zero_or_step in Hx; [|lia|lia].
  unfold covers, tile_at, tile_x_off, tile_y_off, tile_width, tile_height.
  cbv beta iota zeta.
  destruct (Z.gtb_spec x 0); lia.
Qed.

Lemma negative_overlap_leaves_gap_witness :
  exists g, tile_grid (mkRaster 1 40) 10 (-5) = inr g /\
    in_raster (mkRaster 1 40) 0 10 /\
    forall t, In t g -> ~ covers t 0 10.
Proof.
  apply (negative_overlap_leaves_gap (mkRaster 1 40) 10 (-5)); simpl; lia.
Defined.

(** * Failures *)

(** ** What stays on disk after a failed tile *)








(** ** When a run fails *)

(** X10: the function ends in failure (exit status 1) exactly when the
    input file is missing, the tiles directory or the scratch directory
    cannot be made, the raster cannot be opened, the stride
    [tile_size - overlap] is zero, or the read or write of some window of
    the grid fails; in every other case, also for a negative stride or an
    empty raster, it reports success. *)
Theorem run_fails_iff w ts ov :
  run_failed (fst (tile_raster_run w ts ov)) = true <->
  input_exists w = false \/ mkdir_ok w = false \/ mkdtemp_ok w = false \/
  opened w = None \/ ts - ov = 0 \/
  exists r g t, opened w = Some r /\ tile_grid r ts ov = inr g /\
                In t g /\ world_tile_io_ok w t = false.
Proof.
  unfold tile_raster_run, validate_and_prepare_paths.
  destruct (input_exists w); simpl; [|tauto].
  destruct (mkdir_ok w); simpl; [|tauto].
  destruct (mkdtemp_ok w); simpl; [|tauto].
  destruct (opened w) as [r|]; simpl; [|tauto].
  rewrite opened_run_fails_iff. simpl. split.
  - intros [Z0 | (g & t & Hg & Ht & Hio)]; [tauto|].
    do 5 right. exists r, g, t. auto.
  - intros [F|[F|[F|[F|[Z0|(r' & g & t & [= <-] & Hg & Ht & Hio)]]]]];
      try discriminate; [left; exact Z0|].
    right. exists g, t. auto.
Qed.
